(** * The loopback receiver of driver.c

    driver.c is one [main]: it starts Winsock, creates a stream socket,
    connects to 127.0.0.1:12345, prints every chunk [recv] hands over and
    tears the connection down.  The embedding below keeps the order of the
    library calls and the tests on their return values exactly as the source
    writes them.  What the operating system answers (the return values of
    [WSAStartup], [socket] and [connect], the successive results of [recv]
    and the indeterminate bytes found in the local array at entry) is the
    only input of a run; a run yields the calls made, in order, and how the
    process ended. *)

From Stdlib Require Import ZArith List String Ascii Bool Lia.
From Stdlib.Strings Require Import Byte.
Import ListNotations.

Local Open Scope string_scope.
Local Open Scope Z_scope.

(** ** The part of winsock2.h the program uses *)

Module Winsock.

(** Values of the platform header (little-endian host, 64-bit [SOCKET]). *)
Definition AF_INET : Z := 2.
Definition SOCK_STREAM : Z := 1.
Definition SOCKET_ERROR : Z := -1.
Definition INVALID_SOCKET : Z := Z.ones 64.
Definition INADDR_NONE : Z := Z.ones 32.

(** [MAKEWORD(a, b)]: low byte [a], high byte [b]. *)
Definition MAKEWORD (a b : Z) : Z :=
  Z.lor (Z.land a 255) (Z.shiftl (Z.land b 255) 8).

(** [htons]: the two bytes of a 16-bit value exchanged. *)
Definition htons (hostshort : Z) : Z :=
  Z.lor (Z.shiftl (Z.land hostshort 255) 8)
        (Z.land (Z.shiftr hostshort 8) 255).

(** [struct sockaddr_in], the fields the program assigns.  [sin_port] and
    [sin_addr] hold the values as stored, that is in network byte order. *)
Record sockaddr_in := {
  sin_family : Z;
  sin_addr : Z;
  sin_port : Z
}.

Definition sizeof_sockaddr_in : Z := 16.

(** The bytes of an [n]-byte little-endian object holding [v], lowest
    address first: what goes on the wire for a field in network order. *)
Fixpoint object_bytes (n : nat) (v : Z) : list Z :=
  match n with
  | O => []
  | S n' => Z.land v 255 :: object_bytes n' (Z.shiftr v 8)
  end.

(** Big-endian reading of a byte sequence. *)
Definition network_value (bs : list Z) : Z :=
  fold_left (fun acc b => acc * 256 + b) bs 0.

(** [inet_addr] on the dotted-decimal form with four parts.  (The library
    function also takes shorter, octal and hexadecimal forms, which the
    program never passes.) *)
Definition digit_value (c : ascii) : option Z :=
  let n := Z.of_nat (nat_of_ascii c) in
  if (48 <=? n) && (n <=? 57) then Some (n - 48) else None.

Fixpoint dotted_parts (cp : string) (cur : option Z) : option (list Z) :=
  match cp with
  | EmptyString =>
      match cur with Some v => Some [v] | None => None end
  | String c rest =>
      if Ascii.eqb c "."%char then
        match cur, dotted_parts rest None with
        | Some v, Some vs => Some (v :: vs)
        | _, _ => None
        end
      else
        match digit_value c with
        | Some d =>
            dotted_parts rest
              (Some (match cur with Some v => v * 10 + d | None => d end))
        | None => None
        end
  end.

Definition inet_addr (cp : string) : Z :=
  match dotted_parts cp None with
  | Some [a; b; c; d] =>
      if (a <=? 255) && (b <=? 255) && (c <=? 255) && (d <=? 255)
      then Z.lor a (Z.lor (Z.shiftl b 8)
                          (Z.lor (Z.shiftl c 16) (Z.shiftl d 24)))
      else INADDR_NONE
  | _ => INADDR_NONE
  end.

(** What one call of [recv] on a connected stream socket comes back with:
    some bytes, the orderly close of the peer, or a socket error. *)
Inductive recv_outcome :=
| Chunk (data : list byte)
| Closed
| Failed.

(** [recv(s, buf, len, 0)]: the return value and the bytes copied to the
    start of [buf].  Never more than [len] bytes are copied. *)
Definition recv_result (len : Z) (r : recv_outcome) : Z * list byte :=
  match r with
  | Chunk data =>
      let copied := firstn (Z.to_nat len) data in
      (Z.of_nat (List.length copied), copied)
  | Closed => (0, [])
  | Failed => (SOCKET_ERROR, [])
  end.

(** The answers of the operating system during one run. *)
Record os := {
  WSAStartup_ret : Z;
  socket_ret : Z;
  connect_ret : Z;
  inbound : list recv_outcome;
  (** the indeterminate value of each element of an automatic [char]
      array at entry of [main] *)
  indeterminate : nat -> byte
}.

End Winsock.
Import Winsock.

(** ** The part of the C library the program uses *)

Module Stdio.

(** The newline character of the C string literals. *)
Definition LF : string := String "010"%char EmptyString.

(** What [printf] finds when it reads a [char] array as a string: the
    bytes before the first NUL, and whether a NUL was met inside the
    array.  With no NUL in the array the scan leaves it; C gives that read
    no meaning, and here the bytes read inside the array are kept and the
    fact is recorded. *)
Record c_string := {
  text : list byte;
  terminated : bool
}.

Fixpoint read_c_string (mem : list byte) : c_string :=
  match mem with
  | [] => {| text := []; terminated := false |}
  | b :: rest =>
      if Byte.eqb b x00 then {| text := []; terminated := true |}
      else
        let r := read_c_string rest in
        {| text := b :: text r; terminated := terminated r |}
  end.

(** The bytes [printf] writes for a format whose only directive is [%s].
    They are known when every string it is given ends inside its array.
    For a string that does not, [printf] goes on reading the memory that
    follows the array and writes those bytes too; what they are is not
    something the arguments tell, and the result is [None].  So is it for a
    [%s] with no argument left. *)
Fixpoint render (format : list byte) (args : list c_string)
    : option (list byte) :=
  match format with
  | [] => Some []
  | c :: rest =>
      match rest with
      | d :: rest' =>
          if Byte.eqb c x25 && Byte.eqb d x73 then
            match args with
            | a :: args' =>
                if terminated a
                then option_map (app (text a)) (render rest' args')
                else None
            | [] => None
            end
          else option_map (cons c) (render rest args)
      | [] => Some [c]
      end
  end.

End Stdio.
Import Stdio.

(** ** driver.c *)

Module Driver.

Definition PORT : Z := 12345.
Definition BUFFER_SIZE : Z := 256.

(** The library calls of [main], with their arguments. *)
Inductive call :=
| WSAStartup (wVersionRequested : Z)
| socket (af type protocol : Z)
| connect (s : Z) (name : sockaddr_in) (namelen : Z)
| recv (s : Z) (len flags : Z)
| printf (format : string) (args : list c_string)
| closesocket (s : Z)
| WSACleanup.

(** How a run ends: [main] returns a code, or it stays in a [recv] that
    never comes back (the peer neither sends nor closes). *)
Inductive status :=
| Exit (code : Z)
| Blocked.

Record run := {
  trace : list call;
  ending : status
}.

Definition exit (code : Z) : run := {| trace := []; ending := Exit code |}.
Definition blocked : run := {| trace := []; ending := Blocked |}.
Definition after (c : call) (r : run) : run :=
  {| trace := c :: trace r; ending := ending r |}.

Notation "c ;; r" := (after c r) (at level 100, right associativity).

(** The string literals of the source. *)
Definition msg_startup_failed : string := ("WSAStartup failed." ++ LF)%string.
Definition msg_socket_failed : string :=
  ("Socket creation failed." ++ LF)%string.
Definition msg_connect_failed : string := ("Connection failed." ++ LF)%string.
Definition msg_connected : string :=
  ("Connected to Gameboy emulator." ++ LF)%string.
Definition msg_received : string :=
  ("Received from Gameboy emulator: %s" ++ LF)%string.
Definition msg_recv_failed : string := ("Receive failed." ++ LF)%string.

(** [struct sockaddr_in server;] once its three fields are assigned. *)
Definition server : sockaddr_in :=
  {| sin_family := AF_INET;
     sin_addr := inet_addr "127.0.0.1";
     sin_port := htons PORT |}.

(** [char buffer[BUFFER_SIZE];] is not initialised. *)
Definition uninitialized (w : os) (size : Z) : list byte :=
  map (indeterminate w) (seq 0 (Z.to_nat size)).

(** [recv] overwrites the first bytes of the array and leaves the rest. *)
Definition store (buffer copied : list byte) : list byte :=
  (copied ++ skipn (List.length copied) buffer)%list.

(** [while ((recv_size = recv(sock, buffer, BUFFER_SIZE, 0)) > 0) printf(...);]
    followed by [k], the rest of [main], which reads [recv_size]. *)
Fixpoint recv_loop (sock : Z) (buffer : list byte)
    (inbound : list recv_outcome) (k : Z -> run) : run :=
  match inbound with
  | [] => recv sock BUFFER_SIZE 0 ;; blocked
  | r :: later =>
      let (recv_size, copied) := recv_result BUFFER_SIZE r in
      let buffer := store buffer copied in
      recv sock BUFFER_SIZE 0 ;;
      if recv_size >? 0 then
        printf msg_received [read_c_string buffer] ;;
        recv_loop sock buffer later k
      else k recv_size
  end.

Definition main (w : os) : run :=
  let buffer := uninitialized w BUFFER_SIZE in
  WSAStartup (MAKEWORD 2 2) ;;
  if negb (WSAStartup_ret w =? 0) then
    printf msg_startup_failed [] ;;
    exit 1
  else
  let sock := socket_ret w in
  socket AF_INET SOCK_STREAM 0 ;;
  if sock =? INVALID_SOCKET then
    printf msg_socket_failed [] ;;
    exit 1
  else
  connect sock server sizeof_sockaddr_in ;;
  if connect_ret w <? 0 then
    printf msg_connect_failed [] ;;
    exit 1
  else
  printf msg_connected [] ;;
  recv_loop sock buffer (inbound w) (fun recv_size =>
    let teardown := (closesocket sock ;; WSACleanup ;; exit 0) in
    if recv_size =? SOCKET_ERROR then
      printf msg_recv_failed [] ;;
      teardown
    else teardown).

End Driver.
Import Driver.

(** ** What an observer sees of a run *)

Module Observe.

(** The bytes written to standard output, when the calls determine them:
    [None] as soon as one [printf] of the run read a string past the end of
    its array. *)
Definition output_of (c : call) : option (list byte) :=
  match c with
  | printf format args => render (list_byte_of_string format) args
  | _ => Some []
  end.

Definition glue (o1 o2 : option (list byte)) : option (list byte) :=
  match o1, o2 with
  | Some b1, Some b2 => Some (b1 ++ b2)%list
  | _, _ => None
  end.

Definition stdout (t : list call) : option (list byte) :=
  fold_right (fun c rest => glue (output_of c) rest) (Some []) t.

(** The kinds of message the program prints, one per [printf] of [main]. *)
Inductive message_type :=
| StartupFailed
| SocketFailed
| ConnectFailed
| Connected
| Data
| ReceiveFailed.

Definition message_type_of (c : call) : option message_type :=
  match c with
  | printf format _ =>
      if String.eqb format msg_startup_failed then Some StartupFailed
      else if String.eqb format msg_socket_failed then Some SocketFailed
      else if String.eqb format msg_connect_failed then Some ConnectFailed
      else if String.eqb format msg_connected then Some Connected
      else if String.eqb format msg_received then Some Data
      else if String.eqb format msg_recv_failed then Some ReceiveFailed
      else None
  | _ => None
  end.

Fixpoint message_types (t : list call) : list message_type :=
  match t with
  | [] => []
  | c :: t' =>
      match message_type_of c with
      | Some m => m :: message_types t'
      | None => message_types t'
      end
  end.

(** The strings shown by the data messages, in order. *)
Fixpoint data_shown (t : list call) : list c_string :=
  match t with
  | [] => []
  | printf format [a] :: t' =>
      if String.eqb format msg_received then a :: data_shown t'
      else data_shown t'
  | _ :: t' => data_shown t'
  end.

Definition is_recv (c : call) : bool :=
  match c with recv _ _ _ => true | _ => false end.
Definition is_connect (c : call) : bool :=
  match c with connect _ _ _ => true | _ => false end.
Definition is_closesocket (c : call) : bool :=
  match c with closesocket _ => true | _ => false end.
Definition is_WSACleanup (c : call) : bool :=
  match c with WSACleanup => true | _ => false end.

(** The chunks a sequence of [recv] outcomes hands to the loop before it
    ends: the results with a positive byte count, up to the first other. *)
Fixpoint chunks_read (inbound : list recv_outcome) : list (list byte) :=
  match inbound with
  | [] => []
  | r :: later =>
      let (recv_size, copied) := recv_result BUFFER_SIZE r in
      if recv_size >? 0 then copied :: chunks_read later else []
  end.

(** What ends the loop: the first result that is not a positive count. *)
Fixpoint loop_end (inbound : list recv_outcome) : option Z :=
  match inbound with
  | [] => None
  | r :: later =>
      let (recv_size, _) := recv_result BUFFER_SIZE r in
      if recv_size >? 0 then loop_end later else Some recv_size
  end.

(** The successive contents of the array as chunks are stored in it. *)
Fixpoint buffers_after (buffer : list byte) (chunks : list (list byte))
    : list (list byte) :=
  match chunks with
  | [] => []
  | copied :: later =>
      let buffer := store buffer copied in
      buffer :: buffers_after buffer later
  end.

(** One turn of the loop per content of the array: the [recv] that
    produced it, then the [printf] that shows it. *)
Definition loop_calls (sock : Z) (buffers : list (list byte)) : list call :=
  flat_map (fun buffer =>
              [recv sock BUFFER_SIZE 0;
               printf msg_received [read_c_string buffer]]) buffers.

(** The calls that follow the loop once [recv] gave [recv_size]. *)
Definition after_loop (sock recv_size : Z) : list call :=
  ((if recv_size =? SOCKET_ERROR then [printf msg_recv_failed []] else [])
   ++ [closesocket sock; WSACleanup])%list.

(** A run got as far as the message that follows a successful [connect]. *)
Definition connects (w : os) : Prop :=
  WSAStartup_ret w = 0 /\ socket_ret w <> INVALID_SOCKET /\
  0 <= connect_ret w.

(** A run reached the teardown of [main]. *)
Definition teardown_reached (t : list call) : bool :=
  existsb is_closesocket t || existsb is_WSACleanup t.

(** The same machine with other results of [recv]. *)
Definition with_inbound (w : os) (inb : list recv_outcome) : os :=
  {| WSAStartup_ret := WSAStartup_ret w;
     socket_ret := socket_ret w;
     connect_ret := connect_ret w;
     inbound := inb;
     indeterminate := indeterminate w |}.

End Observe.
Import Observe.

(** ** Sample machines *)

Module Sample.

Definition zeroed : nat -> byte := fun _ => x00.

(** Stack memory as a debug build of the compiler fills it. *)
Definition debug_fill : nat -> byte := fun _ => xcc.

(** One leftover byte right after the fifth element of the array. *)
Definition leftover_at_5 : nat -> byte :=
  fun i => if Nat.eqb i 5 then "X"%byte else x00.

Definition peer (answers : list recv_outcome) (stack : nat -> byte) : os :=
  {| WSAStartup_ret := 0;
     socket_ret := 256;
     connect_ret := 0;
     inbound := answers;
     indeterminate := stack |}.

Definition hello : list byte := list_byte_of_string "hello".

Definition no_listener : os :=
  {| WSAStartup_ret := 0;
     socket_ret := 256;
     connect_ret := SOCKET_ERROR;
     inbound := [];
     indeterminate := zeroed |}.

Definition no_winsock : os :=
  {| WSAStartup_ret := 10091;
     socket_ret := 256;
     connect_ret := 0;
     inbound := [];
     indeterminate := zeroed |}.

Definition no_socket : os :=
  {| WSAStartup_ret := 0;
     socket_ret := INVALID_SOCKET;
     connect_ret := 0;
     inbound := [];
     indeterminate := zeroed |}.

Definition closes_at_once : os := peer [Closed] zeroed.

Definition fails_after_two : os :=
  peer [Chunk (list_byte_of_string "ab");
        Chunk (list_byte_of_string "cd");
        Failed] zeroed.

Definition sends_hello : os := peer [Chunk hello; Closed] leftover_at_5.

Definition sends_hello_debug : os := peer [Chunk hello; Closed] debug_fill.

Definition long_then_short : os :=
  peer [Chunk (list_byte_of_string "HELLO!");
        Chunk (list_byte_of_string "hi");
        Closed] zeroed.

End Sample.

(** ** Further observations on a run *)

Module Usage.

Definition is_printf (c : call) : bool :=
  match c with printf _ _ => true | _ => false end.

(** The calls into Winsock, in order: the trace without its [printf]s. *)
Definition library_calls (t : list call) : list call :=
  filter (fun c => negb (is_printf c)) t.

(** The bytes of one data message on standard output. *)
Definition data_line (a : c_string) : list byte :=
  (list_byte_of_string "Received from Gameboy emulator: "
   ++ text a ++ list_byte_of_string LF)%list.

(** No chunk is shorter than the one before it, the first being at least
    [m] bytes long. *)
Fixpoint lengths_grow (m : nat) (chunks : list (list byte)) : bool :=
  match chunks with
  | [] => true
  | d :: later =>
      Nat.leb m (List.length d) && lengths_grow (List.length d) later
  end.

(** The string a chunk free of NUL is meant to show. *)
Definition whole (d : list byte) : c_string :=
  {| text := d; terminated := true |}.

End Usage.
Import Usage.

Module MoreSamples.

Definition bytes (s : string) : list byte := list_byte_of_string s.

(** The peer sends two bytes and then stays silent without closing. *)
Definition silent_after_one : os := Sample.peer [Chunk (bytes "ab")] Sample.zeroed.

(** Results listed after the close are never asked for. *)
Definition closed_then_more : os :=
  Sample.peer [Chunk (bytes "ab"); Closed; Chunk (bytes "zz"); Failed]
              Sample.zeroed.

Definition full_chunk : list byte := repeat "A"%byte 256.

Definition sends_full_chunk : os :=
  Sample.peer [Chunk (bytes "ab"); Chunk full_chunk; Closed] Sample.zeroed.

(** A chunk with a NUL in the middle, on a stack without any NUL. *)
Definition nul_inside : list byte := (bytes "ab" ++ x00 :: bytes "cd")%list.

Definition sends_nul_inside : os :=
  Sample.peer [Chunk (bytes "xyzxyzxyz"); Chunk nul_inside; Closed]
              Sample.debug_fill.

Definition sends_growing : os :=
  Sample.peer [Chunk (bytes "a"); Chunk (bytes "bc"); Chunk (bytes "def");
               Closed] Sample.zeroed.

(** A chunk whose first byte is NUL. *)
Definition sends_nul_first : os :=
  Sample.peer [Chunk (x00 :: bytes "ab"); Closed] Sample.zeroed.

(** The peer of [Sample.sends_hello] met on another day: another socket
    handle, another stack, and other answers in store after the close,
    which are never asked for. *)
Definition sends_hello_elsewhere : os :=
  {| WSAStartup_ret := 0;
     socket_ret := 3;
     connect_ret := 0;
     inbound := [Chunk Sample.hello; Closed; Failed];
     indeterminate := Sample.debug_fill |}.

End MoreSamples.

(** ** The loop and the four ways through [main] *)

Section Loop.

Lemma recv_loop_trace (sock : Z) (k : Z -> run) :
  forall inb buffer,
    trace (recv_loop sock buffer inb k) =
    (loop_calls sock (buffers_after buffer (chunks_read inb))
     ++ recv sock BUFFER_SIZE 0
        :: match loop_end inb with
           | Some recv_size => trace (k recv_size)
           | None => []
           end)%list.
Proof.
  induction inb as [|r later IH]; intros buffer.
  - reflexivity.
  - cbn [recv_loop chunks_read loop_end].
    destruct (recv_result BUFFER_SIZE r) as [recv_size copied].
    destruct (recv_size >? 0).
    + cbn [after trace buffers_after]. rewrite IH. reflexivity.
    + reflexivity.
Qed.

Lemma recv_loop_ending (sock : Z) (k : Z -> run) :
  forall inb buffer,
    ending (recv_loop sock buffer inb k) =
    match loop_end inb with
    | Some recv_size => ending (k recv_size)
    | None => Blocked
    end.
Proof.
  induction inb as [|r later IH]; intros buffer.
  - reflexivity.
  - cbn [recv_loop loop_end].
    destruct (recv_result BUFFER_SIZE r) as [recv_size copied].
    destruct (recv_size >? 0); cbn [after ending]; auto.
Qed.

End Loop.

Section Paths.

Variable w : os.

Lemma main_startup_failed :
  WSAStartup_ret w <> 0 ->
  main w = {| trace := [WSAStartup (MAKEWORD 2 2);
                        printf msg_startup_failed []];
              ending := Exit 1 |}.
Proof.
  intros H. unfold main.
  destruct (Z.eqb_spec (WSAStartup_ret w) 0) as [E|_]; [contradiction|].
  reflexivity.
Qed.

Lemma main_socket_failed :
  WSAStartup_ret w = 0 -> socket_ret w = INVALID_SOCKET ->
  main w = {| trace := [WSAStartup (MAKEWORD 2 2);
                        socket AF_INET SOCK_STREAM 0;
                        printf msg_socket_failed []];
              ending := Exit 1 |}.
Proof.
  intros H0 H1. unfold main. rewrite H0, H1. reflexivity.
Qed.

Lemma main_connect_failed :
  WSAStartup_ret w = 0 -> socket_ret w <> INVALID_SOCKET ->
  connect_ret w < 0 ->
  main w = {| trace := [WSAStartup (MAKEWORD 2 2);
                        socket AF_INET SOCK_STREAM 0;
                        connect (socket_ret w) server sizeof_sockaddr_in;
                        printf msg_connect_failed []];
              ending := Exit 1 |}.
Proof.
  intros H0 H1 H2. unfold main. rewrite H0. cbn [Z.eqb negb].
  destruct (Z.eqb_spec (socket_ret w) INVALID_SOCKET) as [E|_];
    [contradiction|].
  destruct (Z.ltb_spec (connect_ret w) 0) as [_|E]; [|lia].
  reflexivity.
Qed.

Lemma main_connected_trace :
  connects w ->
  trace (main w) =
  ([WSAStartup (MAKEWORD 2 2);
    socket AF_INET SOCK_STREAM 0;
    connect (socket_ret w) server sizeof_sockaddr_in;
    printf msg_connected []]
   ++ loop_calls (socket_ret w)
        (buffers_after (uninitialized w BUFFER_SIZE)
                       (chunks_read (inbound w)))
   ++ recv (socket_ret w) BUFFER_SIZE 0
      :: match loop_end (inbound w) with
         | Some recv_size => after_loop (socket_ret w) recv_size
         | None => []
         end)%list.
Proof.
  intros (H0 & H1 & H2). unfold main. rewrite H0. cbn [Z.eqb negb].
  destruct (Z.eqb_spec (socket_ret w) INVALID_SOCKET) as [E|_];
    [contradiction|].
  destruct (Z.ltb_spec (connect_ret w) 0) as [E|_]; [lia|].
  cbn [after trace app]. rewrite recv_loop_trace.
  do 5 f_equal.
  destruct (loop_end (inbound w)) as [recv_size|]; [|reflexivity].
  unfold after_loop. destruct (recv_size =? SOCKET_ERROR); reflexivity.
Qed.

Lemma main_connected_ending :
  connects w ->
  ending (main w) =
  match loop_end (inbound w) with
  | Some _ => Exit 0
  | None => Blocked
  end.
Proof.
  intros (H0 & H1 & H2). unfold main. rewrite H0. cbn [Z.eqb negb].
  destruct (Z.eqb_spec (socket_ret w) INVALID_SOCKET) as [E|_];
    [contradiction|].
  destruct (Z.ltb_spec (connect_ret w) 0) as [E|_]; [lia|].
  cbn [after ending]. rewrite recv_loop_ending.
  destruct (loop_end (inbound w)) as [recv_size|]; [|reflexivity].
  destruct (recv_size =? SOCKET_ERROR); reflexivity.
Qed.

(** Every run takes one of the four ways. *)
Lemma main_cases :
  WSAStartup_ret w <> 0 \/
  (WSAStartup_ret w = 0 /\ socket_ret w = INVALID_SOCKET) \/
  (WSAStartup_ret w = 0 /\ socket_ret w <> INVALID_SOCKET /\
   connect_ret w < 0) \/
  connects w.
Proof.
  unfold connects.
  destruct (Z.eq_dec (WSAStartup_ret w) 0); [|tauto].
  destruct (Z.eq_dec (socket_ret w) INVALID_SOCKET); [tauto|].
  destruct (Z_lt_ge_dec (connect_ret w) 0); [tauto|].
  right. right. right. repeat split; auto. lia.
Qed.

End Paths.

(** ** Facts on the observations *)

Section Observations.

Lemma message_types_app (t1 t2 : list call) :
  message_types (t1 ++ t2) = (message_types t1 ++ message_types t2)%list.
Proof.
  induction t1 as [|c t1 IH]; [reflexivity|].
  cbn [app message_types]. destruct (message_type_of c); rewrite IH; reflexivity.
Qed.

Lemma data_shown_app (t1 t2 : list call) :
  data_shown (t1 ++ t2) = (data_shown t1 ++ data_shown t2)%list.
Proof.
  induction t1 as [|c t1 IH]; [reflexivity|].
  cbn [app data_shown].
  destruct c as [ | | | |format args| | ]; auto.
  destruct args as [|a [|a' args]]; auto.
  destruct (String.eqb format msg_received); rewrite IH; reflexivity.
Qed.

Lemma buffers_after_length (chunks : list (list byte)) :
  forall buffer, List.length (buffers_after buffer chunks) = List.length chunks.
Proof.
  induction chunks as [|d chunks IH]; intros buffer; [reflexivity|].
  cbn [buffers_after List.length]. rewrite IH. reflexivity.
Qed.

Lemma message_types_loop_calls (sock : Z) (buffers : list (list byte)) :
  message_types (loop_calls sock buffers) = repeat Data (List.length buffers).
Proof.
  induction buffers as [|b buffers IH]; [reflexivity|].
  unfold loop_calls in *. cbn [flat_map app List.length repeat].
  cbn [message_types]. rewrite IH. reflexivity.
Qed.

Lemma data_shown_loop_calls (sock : Z) (buffers : list (list byte)) :
  data_shown (loop_calls sock buffers) = map read_c_string buffers.
Proof.
  induction buffers as [|b buffers IH]; [reflexivity|].
  unfold loop_calls in *. cbn [flat_map app map].
  cbn [data_shown]. rewrite IH. reflexivity.
Qed.

Lemma In_loop_calls (sock : Z) (buffers : list (list byte)) (c : call) :
  In c (loop_calls sock buffers) ->
  c = recv sock BUFFER_SIZE 0 \/
  exists buffer, In buffer buffers /\
                 c = printf msg_received [read_c_string buffer].
Proof.
  unfold loop_calls. rewrite in_flat_map. intros (b & Hb & [E|[E|[]]]).
  - left. congruence.
  - right. exists b. split; [assumption|congruence].
Qed.

(** What [recv] copies is never empty when it counts a positive number of
    bytes, and never longer than asked. *)
Lemma recv_result_bounds (len : Z) (r : recv_outcome) :
  0 <= len ->
  fst (recv_result len r) <= len /\
  (0 < fst (recv_result len r) ->
   Z.of_nat (List.length (snd (recv_result len r))) = fst (recv_result len r)).
Proof.
  intros Hlen. destruct r as [data| |]; cbn [recv_result fst snd].
  - split; [|reflexivity].
    rewrite length_firstn. lia.
  - unfold List.length. lia.
  - unfold SOCKET_ERROR. lia.
Qed.

Lemma chunks_read_bounds (inb : list recv_outcome) :
  Forall (fun d => (0 < List.length d <= 256)%nat) (chunks_read inb).
Proof.
  induction inb as [|r later IH]; [constructor|].
  cbn [chunks_read].
  pose proof (recv_result_bounds BUFFER_SIZE r) as B.
  destruct (recv_result BUFFER_SIZE r) as [recv_size copied].
  cbn [fst snd] in B.
  destruct (Z.gtb_spec recv_size 0) as [Hpos|_]; [|constructor].
  constructor; [|assumption].
  unfold BUFFER_SIZE in B. lia.
Qed.

(** A prefix of positive results is read in full; the next result decides. *)
Lemma chunks_read_app (pre : list recv_outcome) :
  Forall (fun r => 0 < fst (recv_result BUFFER_SIZE r)) pre ->
  forall rest,
    chunks_read (pre ++ rest) =
    (map (fun r => snd (recv_result BUFFER_SIZE r)) pre ++ chunks_read rest)%list.
Proof.
  induction 1 as [|r pre Hr _ IH]; intros rest; [reflexivity|].
  cbn [app chunks_read map].
  destruct (recv_result BUFFER_SIZE r) as [recv_size copied].
  cbn [fst snd] in *.
  destruct (Z.gtb_spec recv_size 0) as [_|Hle]; [|lia].
  rewrite IH. reflexivity.
Qed.

Lemma loop_end_app (pre : list recv_outcome) :
  Forall (fun r => 0 < fst (recv_result BUFFER_SIZE r)) pre ->
  forall rest, loop_end (pre ++ rest) = loop_end rest.
Proof.
  induction 1 as [|r pre Hr _ IH]; intros rest; [reflexivity|].
  cbn [app loop_end].
  destruct (recv_result BUFFER_SIZE r) as [recv_size copied].
  cbn [fst] in *.
  destruct (Z.gtb_spec recv_size 0) as [_|Hle]; [|lia].
  apply IH.
Qed.

(** Reading a string that starts with bytes free of NUL. *)
Lemma read_c_string_app (d mem : list byte) :
  existsb (Byte.eqb x00) d = false ->
  text (read_c_string (d ++ mem)) = (d ++ text (read_c_string mem))%list /\
  terminated (read_c_string (d ++ mem)) = terminated (read_c_string mem).
Proof.
  induction d as [|b d IH]; intros H; [split; reflexivity|].
  cbn [existsb] in H. apply orb_false_iff in H as [Hb Hd].
  cbn [app read_c_string].
  replace (Byte.eqb b x00) with false
    by (destruct b; try reflexivity; discriminate Hb).
  cbn [text terminated]. destruct (IH Hd) as [-> ->]. split; reflexivity.
Qed.

End Observations.

(** ** The runs that end before the loop *)

Section EarlyExits.

(** C2: when [connect] fails the program prints the connection-failure
    message and returns 1; its calls are [WSAStartup], [socket], [connect]
    and that one [printf], so [recv] is never called. *)
Theorem connect_failure_exits_with_1 (w : os) :
  WSAStartup_ret w = 0 ->
  socket_ret w <> INVALID_SOCKET ->
  connect_ret w < 0 ->
  trace (main w) =
    [WSAStartup (MAKEWORD 2 2);
     socket AF_INET SOCK_STREAM 0;
     connect (socket_ret w) server sizeof_sockaddr_in;
     printf msg_connect_failed []] /\
  message_types (trace (main w)) = [ConnectFailed] /\
  stdout (trace (main w)) = Some (list_byte_of_string msg_connect_failed) /\
  existsb is_recv (trace (main w)) = false /\
  ending (main w) = Exit 1.
Proof.
  intros H0 H1 H2. rewrite (main_connect_failed w H0 H1 H2).
  cbn [trace ending]. repeat split; reflexivity.
Qed.

Lemma connect_failure_exits_with_1_witness :
  stdout (trace (main Sample.no_listener)) =
    Some (list_byte_of_string msg_connect_failed) /\
  ending (main Sample.no_listener) = Exit 1.
Proof.
  pose proof (connect_failure_exits_with_1 Sample.no_listener) as H.
  destruct H as (_ & _ & Hout & _ & Hend).
  - reflexivity.
  - vm_compute. discriminate.
  - vm_compute. reflexivity.
  - split; assumption.
Defined.

(** C5: when [WSAStartup] fails, or succeeds and [socket] then fails, the
    program prints the matching error message with [printf] (standard
    output) and returns 1; that [printf] is its last call, and no [connect]
    was made. *)
Theorem init_failure_exits_with_1 (w : os) :
  WSAStartup_ret w <> 0 \/
  (WSAStartup_ret w = 0 /\ socket_ret w = INVALID_SOCKET) ->
  trace (main w) =
    (if WSAStartup_ret w =? 0
     then [WSAStartup (MAKEWORD 2 2);
           socket AF_INET SOCK_STREAM 0;
           printf msg_socket_failed []]
     else [WSAStartup (MAKEWORD 2 2);
           printf msg_startup_failed []]) /\
  stdout (trace (main w)) =
    Some (list_byte_of_string
            (if WSAStartup_ret w =? 0 then msg_socket_failed
             else msg_startup_failed)) /\
  existsb is_connect (trace (main w)) = false /\
  ending (main w) = Exit 1.
Proof.
  intros [H|[H0 H1]].
  - rewrite (main_startup_failed w H).
    destruct (Z.eqb_spec (WSAStartup_ret w) 0) as [E|_]; [contradiction|].
    cbn [trace ending]. repeat split; reflexivity.
  - rewrite (main_socket_failed w H0 H1). rewrite H0.
    cbn [trace ending Z.eqb]. repeat split; reflexivity.
Qed.

Lemma init_failure_exits_with_1_witness :
  (stdout (trace (main Sample.no_winsock)) =
     Some (list_byte_of_string msg_startup_failed) /\
   ending (main Sample.no_winsock) = Exit 1) /\
  (stdout (trace (main Sample.no_socket)) =
     Some (list_byte_of_string msg_socket_failed) /\
   ending (main Sample.no_socket) = Exit 1).
Proof.
  split.
  - destruct (init_failure_exits_with_1 Sample.no_winsock)
      as (_ & Hout & _ & Hend).
    + left. vm_compute. discriminate.
    + split; assumption.
  - destruct (init_failure_exits_with_1 Sample.no_socket)
      as (_ & Hout & _ & Hend).
    + right. split; reflexivity.
    + split; assumption.
Defined.

(** C6: on the connection-failure path (Winsock started, socket created,
    [connect] failed) the program returns 1 and calls neither [closesocket]
    nor [WSACleanup]; and in every run whatever, a trace that holds one of
    these two calls also holds a call of [recv]. *)
Theorem connect_failure_skips_teardown (w : os) :
  (WSAStartup_ret w = 0 /\ socket_ret w <> INVALID_SOCKET /\
   connect_ret w < 0 ->
   ending (main w) = Exit 1 /\
   existsb is_closesocket (trace (main w)) = false /\
   existsb is_WSACleanup (trace (main w)) = false) /\
  implb (teardown_reached (trace (main w)))
        (existsb is_recv (trace (main w))) = true.
Proof.
  split.
  - intros (H0 & H1 & H2). rewrite (main_connect_failed w H0 H1 H2).
    repeat split; reflexivity.
  - destruct (main_cases w) as [H|[[H0 H1]|[(H0 & H1 & H2)|H]]].
    + rewrite (main_startup_failed w H). reflexivity.
    + rewrite (main_socket_failed w H0 H1). reflexivity.
    + rewrite (main_connect_failed w H0 H1 H2). reflexivity.
    + replace (existsb is_recv (trace (main w))) with true;
        [apply implb_true_r|].
      symmetry. apply existsb_exists.
      exists (recv (socket_ret w) BUFFER_SIZE 0). split; [|reflexivity].
      rewrite (main_connected_trace w H).
      apply in_or_app. right. apply in_or_app. right. left. reflexivity.
Qed.

Lemma connect_failure_skips_teardown_witness :
  ending (main Sample.no_listener) = Exit 1 /\
  teardown_reached (trace (main Sample.no_listener)) = false.
Proof.
  destruct (proj1 (connect_failure_skips_teardown Sample.no_listener))
    as (Hend & Hclose & Hclean).
  - repeat split; vm_compute; congruence.
  - split; [assumption|].
    unfold teardown_reached. rewrite Hclose, Hclean. reflexivity.
Defined.

End EarlyExits.

(** ** The endpoint *)

Section Endpoint.

(** C7: [main] has no parameter and the run depends on nothing but the
    answers of the operating system; whatever they are, a [connect] in the
    trace is made on the socket returned by [socket(AF_INET, SOCK_STREAM, 0)]
    and names the constant address [server], whose bytes on the wire are
    127.0.0.1 and port 12345. *)
Theorem connect_targets_loopback_12345
    (w : os) (s : Z) (name : sockaddr_in) (namelen : Z) :
  In (connect s name namelen) (trace (main w)) ->
  name = server /\
  sin_family name = AF_INET /\
  object_bytes 4 (sin_addr name) = [127; 0; 0; 1] /\
  network_value (object_bytes 2 (sin_port name)) = PORT /\
  PORT = 12345 /\
  s = socket_ret w /\
  In (socket AF_INET SOCK_STREAM 0) (trace (main w)).
Proof.
  intros Hin.
  assert (name = server /\ s = socket_ret w /\
          In (socket AF_INET SOCK_STREAM 0) (trace (main w)))
    as (-> & -> & Hsock).
  { destruct (main_cases w) as [H|[[H0 H1]|[(H0 & H1 & H2)|H]]].
    - rewrite (main_startup_failed w H) in Hin.
      cbn [trace In] in Hin. intuition discriminate.
    - rewrite (main_socket_failed w H0 H1) in Hin.
      cbn [trace In] in Hin. intuition discriminate.
    - rewrite (main_connect_failed w H0 H1 H2) in *.
      cbn [trace In] in *.
      destruct Hin as [E|[E|[E|[E|[]]]]]; try discriminate.
      injection E as <- <- <-. auto.
    - rewrite (main_connected_trace w H) in *.
      split; [|split]; [| |cbn [app In]; auto].
      + cbn [app In] in Hin.
        destruct Hin as [E|[E|[E|[E|Hin]]]]; try discriminate.
        * injection E as <- <- <-. reflexivity.
        * apply in_app_or in Hin as [Hin|[E|Hin]]; try discriminate.
          -- apply In_loop_calls in Hin as [E|(b & _ & E)]; discriminate.
          -- destruct (loop_end (inbound w)) as [recv_size|]; [|destruct Hin].
             unfold after_loop in Hin.
             destruct (recv_size =? SOCKET_ERROR); cbn [app In] in Hin;
               intuition discriminate.
      + cbn [app In] in Hin.
        destruct Hin as [E|[E|[E|[E|Hin]]]]; try discriminate.
        * injection E as <- <- <-. reflexivity.
        * apply in_app_or in Hin as [Hin|[E|Hin]]; try discriminate.
          -- apply In_loop_calls in Hin as [E|(b & _ & E)]; discriminate.
          -- destruct (loop_end (inbound w)) as [recv_size|]; [|destruct Hin].
             unfold after_loop in Hin.
             destruct (recv_size =? SOCKET_ERROR); cbn [app In] in Hin;
               intuition discriminate. }
  repeat split; try reflexivity. assumption.
Qed.

Lemma connect_targets_loopback_12345_witness :
  object_bytes 4 (sin_addr server) = [127; 0; 0; 1] /\
  network_value (object_bytes 2 (sin_port server)) = 12345.
Proof.
  destruct (connect_targets_loopback_12345 Sample.no_listener
              256 server sizeof_sockaddr_in)
    as (_ & _ & Haddr & Hport & _).
  - vm_compute. auto.
  - split; assumption.
Defined.

End Endpoint.

(** ** The runs that reach the loop *)

Section Connected.

Lemma main_connected_messages (w : os) :
  connects w ->
  message_types (trace (main w)) =
  (Connected
   :: repeat Data (List.length (chunks_read (inbound w)))
   ++ match loop_end (inbound w) with
      | Some recv_size =>
          if recv_size =? SOCKET_ERROR then [ReceiveFailed] else []
      | None => []
      end)%list.
Proof.
  intros H. rewrite (main_connected_trace w H).
  rewrite !message_types_app, message_types_loop_calls, buffers_after_length.
  cbn [message_types message_type_of app]. do 2 f_equal.
  destruct (loop_end (inbound w)) as [recv_size|]; [|reflexivity].
  unfold after_loop. destruct (recv_size =? SOCKET_ERROR); reflexivity.
Qed.

Lemma main_connected_shown (w : os) :
  connects w ->
  data_shown (trace (main w)) =
  map read_c_string
      (buffers_after (uninitialized w BUFFER_SIZE) (chunks_read (inbound w))).
Proof.
  intros H. rewrite (main_connected_trace w H).
  rewrite !data_shown_app, data_shown_loop_calls.
  cbn [data_shown app].
  replace (data_shown _) with (@nil c_string); [apply app_nil_r|].
  destruct (loop_end (inbound w)) as [recv_size|]; [|reflexivity].
  unfold after_loop. destruct (recv_size =? SOCKET_ERROR); reflexivity.
Qed.

(** C4: when the first [recv] returns 0 the program has printed the
    connection-success message and nothing else, tears down and returns 0. *)
Theorem immediate_close_prints_only_success
    (w : os) (r : recv_outcome) (later : list recv_outcome) :
  connects w ->
  inbound w = r :: later ->
  fst (recv_result BUFFER_SIZE r) = 0 ->
  trace (main w) =
    [WSAStartup (MAKEWORD 2 2);
     socket AF_INET SOCK_STREAM 0;
     connect (socket_ret w) server sizeof_sockaddr_in;
     printf msg_connected [];
     recv (socket_ret w) BUFFER_SIZE 0;
     closesocket (socket_ret w);
     WSACleanup] /\
  message_types (trace (main w)) = [Connected] /\
  stdout (trace (main w)) = Some (list_byte_of_string msg_connected) /\
  ending (main w) = Exit 0.
Proof.
  intros H Hin Hret.
  assert (chunks_read (inbound w) = [] /\ loop_end (inbound w) = Some 0)
    as [Hchunks Hend].
  { rewrite Hin. cbn [chunks_read loop_end].
    destruct (recv_result BUFFER_SIZE r) as [recv_size copied].
    cbn [fst] in Hret. subst recv_size. split; reflexivity. }
  assert (trace (main w) =
    [WSAStartup (MAKEWORD 2 2);
     socket AF_INET SOCK_STREAM 0;
     connect (socket_ret w) server sizeof_sockaddr_in;
     printf msg_connected [];
     recv (socket_ret w) BUFFER_SIZE 0;
     closesocket (socket_ret w);
     WSACleanup]) as Htrace.
  { rewrite (main_connected_trace w H), Hchunks, Hend. reflexivity. }
  rewrite (main_connected_ending w H), Hend, Htrace.
  repeat split; reflexivity.
Qed.

Lemma immediate_close_prints_only_success_witness :
  message_types (trace (main Sample.closes_at_once)) = [Connected] /\
  ending (main Sample.closes_at_once) = Exit 0.
Proof.
  destruct (immediate_close_prints_only_success
              Sample.closes_at_once Closed [])
    as (_ & Hmsg & _ & Hend).
  - repeat split; vm_compute; congruence.
  - reflexivity.
  - reflexivity.
  - split; assumption.
Defined.

(** C3: when, after a successful [connect], a [recv] returns [SOCKET_ERROR]
    (the earlier ones having returned positive counts), the program prints
    the receive-error message, leaves the loop, calls [closesocket] and
    [WSACleanup] and returns 0; the same machine with an orderly close in
    place of the error returns 0 as well. *)
Theorem recv_error_tears_down_and_exits_0
    (w : os) (pre post : list recv_outcome) :
  connects w ->
  inbound w = (pre ++ Failed :: post)%list ->
  Forall (fun r => 0 < fst (recv_result BUFFER_SIZE r)) pre ->
  (exists before,
     trace (main w) =
     (before ++ [recv (socket_ret w) BUFFER_SIZE 0;
                 printf msg_recv_failed [];
                 closesocket (socket_ret w);
                 WSACleanup])%list) /\
  message_types (trace (main w)) =
    (Connected :: repeat Data (List.length pre) ++ [ReceiveFailed])%list /\
  ending (main w) = Exit 0 /\
  ending (main (with_inbound w (pre ++ Closed :: post))) = ending (main w).
Proof.
  intros H Hin Hpre.
  assert (loop_end (inbound w) = Some SOCKET_ERROR) as Hend
    by (rewrite Hin, loop_end_app by assumption; reflexivity).
  assert (List.length (chunks_read (inbound w)) = List.length pre) as Hlen.
  { rewrite Hin, chunks_read_app by assumption.
    cbn [chunks_read recv_result]. cbn. rewrite app_nil_r. apply length_map. }
  split; [|split; [|split]].
  - rewrite (main_connected_trace w H), Hend.
    eexists. rewrite app_assoc. reflexivity.
  - rewrite (main_connected_messages w H), Hend, Hlen. reflexivity.
  - rewrite (main_connected_ending w H), Hend. reflexivity.
  - rewrite (main_connected_ending w H), Hend.
    rewrite main_connected_ending by exact H.
    cbn [with_inbound inbound]. rewrite loop_end_app by assumption.
    reflexivity.
Qed.

Lemma recv_error_tears_down_and_exits_0_witness :
  message_types (trace (main Sample.fails_after_two)) =
    [Connected; Data; Data; ReceiveFailed] /\
  ending (main Sample.fails_after_two) = Exit 0.
Proof.
  destruct (recv_error_tears_down_and_exits_0 Sample.fails_after_two
              [Chunk (list_byte_of_string "ab");
               Chunk (list_byte_of_string "cd")] [])
    as (_ & Hmsg & Hend & _).
  - repeat split; vm_compute; congruence.
  - reflexivity.
  - repeat constructor.
  - split; assumption.
Defined.

(** C9: two runs in which [WSAStartup], [socket] and [connect] each end
    the same way (success or failure, as [main] tests them) and in which
    [recv] hands over the same chunks and then ends the loop with the same
    return value print the same sequence of message types and end the same
    way.  The socket handles, the error codes, the bytes the array held at
    entry and the answers never asked for may all differ. *)
Theorem same_outcomes_same_messages (w1 w2 : os) :
  (WSAStartup_ret w1 =? 0) = (WSAStartup_ret w2 =? 0) ->
  (socket_ret w1 =? INVALID_SOCKET) = (socket_ret w2 =? INVALID_SOCKET) ->
  (connect_ret w1 <? 0) = (connect_ret w2 <? 0) ->
  chunks_read (inbound w1) = chunks_read (inbound w2) ->
  loop_end (inbound w1) = loop_end (inbound w2) ->
  message_types (trace (main w1)) = message_types (trace (main w2)) /\
  ending (main w1) = ending (main w2).
Proof.
  intros E0 E1 E2 Echunks Eend.
  destruct (Z.eqb_spec (WSAStartup_ret w1) 0) as [S1|S1];
    destruct (Z.eqb_spec (WSAStartup_ret w2) 0) as [S2|S2];
    try discriminate E0.
  2:{ rewrite (main_startup_failed w1 S1), (main_startup_failed w2 S2).
      split; reflexivity. }
  destruct (Z.eqb_spec (socket_ret w1) INVALID_SOCKET) as [K1|K1];
    destruct (Z.eqb_spec (socket_ret w2) INVALID_SOCKET) as [K2|K2];
    try discriminate E1.
  { rewrite (main_socket_failed w1 S1 K1), (main_socket_failed w2 S2 K2).
    split; reflexivity. }
  destruct (Z.ltb_spec (connect_ret w1) 0) as [C1|C1];
    destruct (Z.ltb_spec (connect_ret w2) 0) as [C2|C2];
    try discriminate E2.
  { rewrite (main_connect_failed w1 S1 K1 C1),
            (main_connect_failed w2 S2 K2 C2).
    split; reflexivity. }
  assert (connects w1) as H1 by (repeat split; assumption).
  assert (connects w2) as H2 by (repeat split; assumption).
  rewrite (main_connected_messages w1 H1), (main_connected_messages w2 H2).
  rewrite (main_connected_ending w1 H1), (main_connected_ending w2 H2).
  rewrite Echunks, Eend. split; reflexivity.
Qed.

Lemma same_outcomes_same_messages_witness :
  message_types (trace (main Sample.sends_hello)) =
    message_types (trace (main MoreSamples.sends_hello_elsewhere)) /\
  ending (main Sample.sends_hello) =
    ending (main MoreSamples.sends_hello_elsewhere) /\
  socket_ret Sample.sends_hello <>
    socket_ret MoreSamples.sends_hello_elsewhere /\
  data_shown (trace (main Sample.sends_hello)) <>
    data_shown (trace (main MoreSamples.sends_hello_elsewhere)).
Proof.
  destruct (same_outcomes_same_messages
              Sample.sends_hello MoreSamples.sends_hello_elsewhere
              eq_refl eq_refl eq_refl eq_refl eq_refl)
    as (Hmsg & Hend).
  split; [exact Hmsg|]. split; [exact Hend|]. split.
  - vm_compute. discriminate.
  - intros E. apply (f_equal (map (fun a => List.length (text a)))) in E.
    vm_compute in E. discriminate E.
Defined.

End Connected.

(** ** What a data message shows *)

Section Shown.

Lemma chunks_read_Chunk (d : list byte) (later : list recv_outcome) :
  (0 < List.length d <= 256)%nat ->
  chunks_read (Chunk d :: later) = d :: chunks_read later.
Proof.
  intros Hd. cbn [chunks_read recv_result].
  change (Z.to_nat BUFFER_SIZE) with 256%nat.
  rewrite firstn_all2 by lia.
  destruct (Z.gtb_spec (Z.of_nat (List.length d)) 0) as [_|Hle]; [|lia].
  reflexivity.
Qed.

(** The chunks of a well-formed sequence are the chunks the loop reads. *)
Lemma chunks_read_chunks (ds : list (list byte)) (rest : list recv_outcome) :
  Forall (fun d => (0 < List.length d <= 256)%nat) ds ->
  chunks_read (map Chunk ds ++ rest) = (ds ++ chunks_read rest)%list.
Proof.
  induction 1 as [|d ds Hd _ IH]; [reflexivity|].
  cbn [map app]. rewrite chunks_read_Chunk by assumption.
  rewrite IH. reflexivity.
Qed.






(** C1 at a machine whose stack holds one byte ['X'] just after the fifth
    element of the array: the peer sends the five bytes [hello] and closes;
    the program prints the success message, then a data message that shows
    [helloX], and returns 0.  On a stack filled by a debug build the same
    run shows 256 bytes and finds no NUL in the array. *)
Theorem hello_run_shows_leftover_byte :
  stdout (trace (main Sample.sends_hello)) =
    Some (list_byte_of_string
            ("Connected to Gameboy emulator." ++ LF ++
             "Received from Gameboy emulator: helloX" ++ LF)%string) /\
  message_types (trace (main Sample.sends_hello)) = [Connected; Data] /\
  ending (main Sample.sends_hello) = Exit 0 /\
  map (fun a => (List.length (text a), terminated a))
      (data_shown (trace (main Sample.sends_hello_debug))) =
    [(256%nat, false)].
Proof.
  repeat split; vm_compute; reflexivity.
Qed.

(** C8 at a peer that sends six bytes and then two, on an array that held
    only NUL at entry: each chunk gets its own data message, in order, but
    the message for the second chunk [hi] shows [hiLLO!], the chunk
    followed by what the array still held of the first one.  And a chunk
    that starts with a NUL gets a data message that shows none of its
    bytes. *)
Theorem short_chunk_is_shown_with_older_bytes :
  data_shown (trace (main Sample.long_then_short)) =
    [whole (list_byte_of_string "HELLO!");
     whole (list_byte_of_string "hiLLO!")] /\
  stdout (trace (main Sample.long_then_short)) =
    Some (list_byte_of_string
            ("Connected to Gameboy emulator." ++ LF ++
             "Received from Gameboy emulator: HELLO!" ++ LF ++
             "Received from Gameboy emulator: hiLLO!" ++ LF)%string) /\
  ending (main Sample.long_then_short) = Exit 0 /\
  stdout (trace (main MoreSamples.sends_nul_first)) =
    Some (list_byte_of_string
            ("Connected to Gameboy emulator." ++ LF ++
             "Received from Gameboy emulator: " ++ LF)%string).
Proof.
  repeat split; vm_compute; reflexivity.
Qed.

End Shown.

(** ** When [main] returns, and with what *)

Section Returning.

Lemma loop_end_None (inb : list recv_outcome) :
  loop_end inb = None <->
  Forall (fun r => 0 < fst (recv_result BUFFER_SIZE r)) inb.
Proof.
  induction inb as [|r later IH]; [split; auto|].
  cbn [loop_end].
  destruct (recv_result BUFFER_SIZE r) as [recv_size copied] eqn:E.
  destruct (Z.gtb_spec recv_size 0) as [Hpos|Hle].
  - rewrite IH. split.
    + intros H. constructor; [rewrite E; cbn [fst]; lia|assumption].
    + intros H. inversion H. assumption.
  - split; [discriminate|].
    intros H. inversion H as [|? ? Hr _]. rewrite E in Hr. cbn [fst] in Hr. lia.
Qed.

Lemma loop_end_Some (inb : list recv_outcome) :
  (exists recv_size, loop_end inb = Some recv_size) <->
  Exists (fun r => fst (recv_result BUFFER_SIZE r) <= 0) inb.
Proof.
  induction inb as [|r later IH].
  - split; [intros [z Hz]; discriminate|intros H; inversion H].
  - cbn [loop_end].
    destruct (recv_result BUFFER_SIZE r) as [recv_size copied] eqn:E.
    destruct (Z.gtb_spec recv_size 0) as [Hpos|Hle].
    + rewrite IH. split.
      * intros H. apply Exists_cons_tl. assumption.
      * intros H. inversion H as [? ? Hr|]; [|assumption].
        rewrite E in Hr. cbn [fst] in Hr. lia.
    + split; [|eauto].
      intros _. apply Exists_cons_hd. rewrite E. assumption.
Qed.

(** After a successful [connect], [main] returns (with 0) exactly when some
    [recv] result is not a positive count, and stays in [recv] for ever
    exactly when every result is one. *)
Theorem returns_iff_peer_ends (w : os) :
  connects w ->
  (ending (main w) = Exit 0 <->
   Exists (fun r => fst (recv_result BUFFER_SIZE r) <= 0) (inbound w)) /\
  (ending (main w) = Blocked <->
   Forall (fun r => 0 < fst (recv_result BUFFER_SIZE r)) (inbound w)).
Proof.
  intros H. rewrite (main_connected_ending w H).
  rewrite <- loop_end_Some, <- loop_end_None.
  destruct (loop_end (inbound w)) as [recv_size|]; split; split;
    try discriminate; try reflexivity; eauto.
  intros [z Hz]. discriminate.
Qed.

Lemma returns_iff_peer_ends_witness :
  ending (main MoreSamples.silent_after_one) = Blocked /\
  ending (main MoreSamples.closed_then_more) = Exit 0.
Proof.
  split.
  - apply (returns_iff_peer_ends MoreSamples.silent_after_one).
    + repeat split; vm_compute; congruence.
    + repeat constructor.
  - apply (returns_iff_peer_ends MoreSamples.closed_then_more).
    + repeat split; vm_compute; congruence.
    + apply Exists_cons_tl, Exists_cons_hd. vm_compute. discriminate.
Defined.

(** [main] returns 1 exactly when [WSAStartup], [socket] or [connect]
    failed, and it never returns anything but 0 or 1. *)
Theorem exit_code_is_0_or_1 (w : os) :
  (ending (main w) = Exit 1 <-> ~ connects w) /\
  (forall code, ending (main w) = Exit code -> code = 0 \/ code = 1).
Proof.
  destruct (main_cases w) as [H|[[H0 H1]|[(H0 & H1 & H2)|H]]].
  - rewrite (main_startup_failed w H). cbn [ending]. split.
    + split; [|reflexivity]. intros _ (E & _). contradiction.
    + intros code E. injection E as <-. auto.
  - rewrite (main_socket_failed w H0 H1). cbn [ending]. split.
    + split; [|reflexivity]. intros _ (_ & E & _). contradiction.
    + intros code E. injection E as <-. auto.
  - rewrite (main_connect_failed w H0 H1 H2). cbn [ending]. split.
    + split; [|reflexivity]. intros _ (_ & _ & E). lia.
    + intros code E. injection E as <-. auto.
  - rewrite (main_connected_ending w H).
    destruct (loop_end (inbound w)) as [recv_size|]; split.
    + split; [discriminate|contradiction].
    + intros code E. injection E as <-. auto.
    + split; [discriminate|contradiction].
    + discriminate.
Qed.

Lemma exit_code_is_0_or_1_witness :
  ~ connects Sample.no_socket /\ connects Sample.closes_at_once.
Proof.
  split.
  - apply (proj1 (exit_code_is_0_or_1 Sample.no_socket)). reflexivity.
  - repeat split; vm_compute; congruence.
Defined.

Lemma recv_loop_ignores_rest
    (sock : Z) (k : Z -> run) (r : recv_outcome) (post : list recv_outcome) :
  fst (recv_result BUFFER_SIZE r) <= 0 ->
  forall pre buffer,
    recv_loop sock buffer (pre ++ r :: post) k =
    recv_loop sock buffer (pre ++ [r]) k.
Proof.
  intros Hr. induction pre as [|p pre IH]; intros buffer.
  - cbn [app recv_loop].
    destruct (recv_result BUFFER_SIZE r) as [recv_size copied].
    cbn [fst] in Hr.
    destruct (Z.gtb_spec recv_size 0) as [Hpos|_]; [lia|reflexivity].
  - cbn [app recv_loop].
    destruct (recv_result BUFFER_SIZE p) as [recv_size copied].
    destruct (recv_size >? 0); [|reflexivity].
    rewrite IH. reflexivity.
Qed.

(** The first [recv] result that is not a positive count is the last one
    the program asks for: whatever the peer or the system would have
    answered afterwards changes nothing in the run. *)
Theorem nothing_read_after_the_end
    (w : os) (pre post : list recv_outcome) (r : recv_outcome) :
  fst (recv_result BUFFER_SIZE r) <= 0 ->
  main (with_inbound w (pre ++ r :: post)) =
  main (with_inbound w (pre ++ [r])).
Proof.
  intros Hr. unfold main. cbn [with_inbound WSAStartup_ret socket_ret
                               connect_ret inbound].
  destruct (negb (WSAStartup_ret w =? 0)); [reflexivity|].
  destruct (socket_ret w =? INVALID_SOCKET); [reflexivity|].
  destruct (connect_ret w <? 0); [reflexivity|].
  rewrite (recv_loop_ignores_rest _ _ r post Hr).
  reflexivity.
Qed.

Lemma nothing_read_after_the_end_witness :
  main MoreSamples.closed_then_more =
  main (Sample.peer [Chunk (MoreSamples.bytes "ab"); Closed] Sample.zeroed).
Proof.
  apply (nothing_read_after_the_end
           (Sample.peer [] Sample.zeroed)
           [Chunk (MoreSamples.bytes "ab")]
           [Chunk (MoreSamples.bytes "zz"); Failed] Closed).
  vm_compute. discriminate.
Defined.

End Returning.

(** ** The order of the library calls *)

Section CallOrder.

Lemma existsb_loop_calls (f : call -> bool) (sock : Z) :
  f (recv sock BUFFER_SIZE 0) = false ->
  (forall a, f (printf msg_received [a]) = false) ->
  forall buffers, existsb f (loop_calls sock buffers) = false.
Proof.
  intros Hrecv Hprintf. induction buffers as [|b buffers IH]; [reflexivity|].
  unfold loop_calls in *. cbn [flat_map app existsb].
  rewrite Hrecv, Hprintf, IH. reflexivity.
Qed.

Lemma library_calls_loop_calls (sock : Z) (buffers : list (list byte)) :
  library_calls (loop_calls sock buffers) =
  repeat (recv sock BUFFER_SIZE 0) (List.length buffers).
Proof.
  induction buffers as [|b buffers IH]; [reflexivity|].
  unfold loop_calls, library_calls in *.
  cbn [flat_map app filter is_printf negb List.length repeat].
  rewrite IH. reflexivity.
Qed.

Lemma library_calls_app (t1 t2 : list call) :
  library_calls (t1 ++ t2) = (library_calls t1 ++ library_calls t2)%list.
Proof. apply filter_app. Qed.

Lemma library_calls_after_loop (sock recv_size : Z) :
  library_calls (after_loop sock recv_size) = [closesocket sock; WSACleanup].
Proof.
  unfold after_loop. destruct (recv_size =? SOCKET_ERROR); reflexivity.
Qed.

(** A run that returns 0 ends with [closesocket] on the handle [socket]
    returned and then [WSACleanup], each called once; a run that does not
    return 0 calls neither, so both failures after a successful
    [WSAStartup] leave Winsock started. *)
Theorem teardown_exactly_on_exit_0 (w : os) :
  (ending (main w) = Exit 0 ->
   exists before,
     trace (main w) =
       (before ++ [closesocket (socket_ret w); WSACleanup])%list /\
     teardown_reached before = false) /\
  (ending (main w) <> Exit 0 ->
   teardown_reached (trace (main w)) = false).
Proof.
  destruct (main_cases w) as [H|[[H0 H1]|[(H0 & H1 & H2)|H]]].
  - rewrite (main_startup_failed w H).
    split; [discriminate|reflexivity].
  - rewrite (main_socket_failed w H0 H1).
    split; [discriminate|reflexivity].
  - rewrite (main_connect_failed w H0 H1 H2).
    split; [discriminate|reflexivity].
  - rewrite (main_connected_trace w H), (main_connected_ending w H).
    set (buffers := buffers_after _ _).
    assert (teardown_reached (loop_calls (socket_ret w) buffers) = false)
      as Hloop.
    { unfold teardown_reached.
      rewrite !existsb_loop_calls by reflexivity. reflexivity. }
    unfold teardown_reached in *. apply orb_false_iff in Hloop as [Hc Hw].
    destruct (loop_end (inbound w)) as [recv_size|]; split;
      try congruence; intros _.
    + exists ([WSAStartup (MAKEWORD 2 2); socket AF_INET SOCK_STREAM 0;
               connect (socket_ret w) server sizeof_sockaddr_in;
               printf msg_connected []]
              ++ loop_calls (socket_ret w) buffers
              ++ recv (socket_ret w) BUFFER_SIZE 0
                 :: (if recv_size =? SOCKET_ERROR
                     then [printf msg_recv_failed []] else []))%list.
      split.
      * unfold after_loop. rewrite <- !app_assoc. cbn [app]. reflexivity.
      * rewrite !existsb_app, Hc, Hw.
        destruct (recv_size =? SOCKET_ERROR); reflexivity.
    + rewrite !existsb_app, Hc, Hw. reflexivity.
Qed.

Lemma teardown_exactly_on_exit_0_witness :
  teardown_reached (trace (main MoreSamples.silent_after_one)) = false /\
  teardown_reached (trace (main Sample.no_socket)) = false /\
  exists before,
    trace (main Sample.closes_at_once) =
      (before ++ [closesocket (socket_ret Sample.closes_at_once);
                  WSACleanup])%list /\
    teardown_reached before = false.
Proof.
  split; [|split].
  - apply (proj2 (teardown_exactly_on_exit_0 MoreSamples.silent_after_one)).
    vm_compute. discriminate.
  - apply (proj2 (teardown_exactly_on_exit_0 Sample.no_socket)).
    vm_compute. discriminate.
  - apply (proj1 (teardown_exactly_on_exit_0 Sample.closes_at_once)).
    reflexivity.
Defined.

(** Whatever the system answers, the calls into Winsock are an initial
    part of: [WSAStartup], [socket], [connect], some [recv]s on the socket,
    [closesocket], [WSACleanup].  So nothing is called on the socket before
    it is connected or after it is closed. *)
Theorem library_calls_follow_the_protocol (w : os) :
  exists n rest,
    ([WSAStartup (MAKEWORD 2 2);
      socket AF_INET SOCK_STREAM 0;
      connect (socket_ret w) server sizeof_sockaddr_in]
     ++ repeat (recv (socket_ret w) BUFFER_SIZE 0) n
     ++ [closesocket (socket_ret w); WSACleanup])%list =
    (library_calls (trace (main w)) ++ rest)%list.
Proof.
  destruct (main_cases w) as [H|[[H0 H1]|[(H0 & H1 & H2)|H]]].
  - rewrite (main_startup_failed w H). exists 0%nat. eexists. reflexivity.
  - rewrite (main_socket_failed w H0 H1). exists 0%nat. eexists. reflexivity.
  - rewrite (main_connect_failed w H0 H1 H2). exists 0%nat. eexists.
    reflexivity.
  - rewrite (main_connected_trace w H).
    set (buffers := buffers_after _ _).
    exists (S (List.length buffers)).
    exists (match loop_end (inbound w) with
            | Some _ => []
            | None => [closesocket (socket_ret w); WSACleanup]
            end).
    rewrite !library_calls_app, library_calls_loop_calls.
    cbn [library_calls filter is_printf negb app].
    fold (library_calls
            match loop_end (inbound w) with
            | Some recv_size => after_loop (socket_ret w) recv_size
            | None => []
            end).
    do 3 f_equal.
    cbn [repeat]. rewrite repeat_cons, <- !app_assoc.
    cbn [app]. do 2 f_equal.
    destruct (loop_end (inbound w)) as [recv_size|].
    + rewrite library_calls_after_loop, app_nil_r. reflexivity.
    + reflexivity.
Qed.

(** In a run that reaches the loop there is one more [recv] than there are
    data messages: the last [recv] is the one that ended the loop, or the
    one still waiting. *)
Theorem one_more_recv_than_messages (w : os) :
  connects w ->
  List.length (filter is_recv (trace (main w))) =
  S (List.length (data_shown (trace (main w)))).
Proof.
  intros H. rewrite (main_connected_shown w H), length_map.
  rewrite (main_connected_trace w H).
  set (buffers := buffers_after _ _).
  cbn [app filter is_recv]. rewrite !filter_app, !length_app.
  cbn [filter is_recv List.length].
  replace (filter is_recv
             match loop_end (inbound w) with
             | Some recv_size => after_loop (socket_ret w) recv_size
             | None => []
             end) with (@nil call).
  - cbn [List.length]. rewrite Nat.add_1_r. f_equal.
    clear. induction buffers as [|b buffers IH]; [reflexivity|].
    unfold loop_calls in *. cbn [flat_map app filter is_recv List.length].
    rewrite IH. reflexivity.
  - destruct (loop_end (inbound w)) as [recv_size|]; [|reflexivity].
    unfold after_loop. destruct (recv_size =? SOCKET_ERROR); reflexivity.
Qed.

Lemma one_more_recv_than_messages_witness :
  List.length (filter is_recv (trace (main Sample.fails_after_two))) = 3%nat.
Proof.
  rewrite (one_more_recv_than_messages Sample.fails_after_two).
  - reflexivity.
  - repeat split; vm_compute; congruence.
Defined.

End CallOrder.

(** ** The array and what is read from it *)

Section Array.

Lemma store_length (buffer copied : list byte) :
  (List.length copied <= List.length buffer)%nat ->
  List.length (store buffer copied) = List.length buffer.
Proof.
  intros H. unfold store. rewrite length_app, length_skipn. lia.
Qed.

Lemma uninitialized_length (w : os) :
  List.length (uninitialized w BUFFER_SIZE) = 256%nat.
Proof.
  unfold uninitialized. rewrite length_map, length_seq. reflexivity.
Qed.

Lemma fold_store_length (chunks : list (list byte)) :
  Forall (fun d => (List.length d <= 256)%nat) chunks ->
  forall buffer,
    List.length buffer = 256%nat ->
    List.length (fold_left store chunks buffer) = 256%nat.
Proof.
  induction 1 as [|d chunks Hd _ IH]; intros buffer Hb; [assumption|].
  cbn [fold_left]. apply IH. rewrite store_length; lia.
Qed.

Lemma buffers_after_app (l1 l2 : list (list byte)) :
  forall buffer,
    buffers_after buffer (l1 ++ l2) =
    (buffers_after buffer l1
     ++ buffers_after (fold_left store l1 buffer) l2)%list.
Proof.
  induction l1 as [|d l1 IH]; intros buffer; [reflexivity|].
  cbn [app buffers_after fold_left]. rewrite IH. reflexivity.
Qed.

Lemma buffers_after_sizes (chunks : list (list byte)) :
  Forall (fun d => (List.length d <= 256)%nat) chunks ->
  forall buffer,
    List.length buffer = 256%nat ->
    Forall (fun b => List.length b = 256%nat) (buffers_after buffer chunks).
Proof.
  induction 1 as [|d chunks Hd _ IH]; intros buffer Hb; [constructor|].
  cbn [buffers_after].
  assert (List.length (store buffer d) = 256%nat)
    by (rewrite store_length; lia).
  constructor; auto.
Qed.

Lemma read_c_string_length (mem : list byte) :
  if terminated (read_c_string mem)
  then (List.length (text (read_c_string mem)) < List.length mem)%nat
  else List.length (text (read_c_string mem)) = List.length mem.
Proof.
  induction mem as [|b mem IH]; [reflexivity|].
  cbn [read_c_string]. destruct (Byte.eqb b x00).
  - cbn [terminated text List.length]. lia.
  - cbn [terminated text List.length].
    destruct (terminated (read_c_string mem)); lia.
Qed.

Lemma chunks_read_at_most_256 (inb : list recv_outcome) :
  Forall (fun d => (List.length d <= 256)%nat) (chunks_read inb).
Proof.
  eapply Forall_impl; [|apply chunks_read_bounds].
  cbn beta. intros d Hd. lia.
Qed.

(** [recv] is asked for the size of the array, so the array keeps its 256
    bytes; a data message shows fewer than 256 bytes of it when [printf]
    meets a NUL inside, and all 256 when it runs off its end. *)
Theorem shown_text_within_the_array (w : os) :
  connects w ->
  Forall (fun a => if terminated a
                   then (List.length (text a) < 256)%nat
                   else List.length (text a) = 256%nat)
         (data_shown (trace (main w))).
Proof.
  intros H. rewrite (main_connected_shown w H).
  apply Forall_map.
  eapply Forall_impl;
    [|apply buffers_after_sizes;
      [apply chunks_read_at_most_256|apply uninitialized_length]].
  cbn beta. intros b Hb.
  pose proof (read_c_string_length b) as L. rewrite Hb in L. exact L.
Qed.

Lemma shown_text_within_the_array_witness :
  Forall (fun a => if terminated a
                   then (List.length (text a) < 256)%nat
                   else List.length (text a) = 256%nat)
         (data_shown (trace (main MoreSamples.sends_full_chunk))).
Proof.
  apply (shown_text_within_the_array MoreSamples.sends_full_chunk).
  repeat split; vm_compute; congruence.
Defined.

(** The string shown for a chunk that arrives after positive results
    [pre]: the array, 256 bytes long, with the chunk stored at its front. *)
Lemma shown_at (w : os) (pre later : list recv_outcome) (d : list byte) :
  connects w ->
  inbound w = (pre ++ Chunk d :: later)%list ->
  Forall (fun r => 0 < fst (recv_result BUFFER_SIZE r)) pre ->
  (0 < List.length d <= 256)%nat ->
  exists buffer,
    List.length buffer = 256%nat /\
    nth_error (data_shown (trace (main w))) (List.length pre) =
    Some (read_c_string (store buffer d)).
Proof.
  intros H Hin Hpre Hd.
  rewrite (main_connected_shown w H), Hin.
  rewrite chunks_read_app by assumption.
  rewrite chunks_read_Chunk by assumption.
  set (before := map (fun r => snd (recv_result BUFFER_SIZE r)) pre).
  assert (Forall (fun d => (List.length d <= 256)%nat) before) as Hbefore.
  { subst before. apply Forall_map. apply Forall_forall. intros r _.
    destruct (recv_result_bounds BUFFER_SIZE r) as [Hle Hlen];
      [unfold BUFFER_SIZE; lia|].
    destruct r as [data| |]; cbn [recv_result snd List.length]; try lia.
    rewrite length_firstn. unfold BUFFER_SIZE. lia. }
  exists (fold_left store before (uninitialized w BUFFER_SIZE)).
  split; [apply fold_store_length;
          [assumption|apply uninitialized_length]|].
  rewrite buffers_after_app, map_app.
  rewrite nth_error_app2
    by (rewrite length_map, buffers_after_length; subst before;
        rewrite length_map; lia).
  rewrite length_map, buffers_after_length. subst before.
  rewrite length_map, Nat.sub_diag. reflexivity.
Qed.

(** A chunk that fills the array with 256 bytes free of NUL is shown in
    full and [printf] runs off the end of the array, whatever was received
    before and whatever the array held. *)
Theorem full_chunk_is_read_past_the_array
    (w : os) (pre later : list recv_outcome) (d : list byte) :
  connects w ->
  inbound w = (pre ++ Chunk d :: later)%list ->
  Forall (fun r => 0 < fst (recv_result BUFFER_SIZE r)) pre ->
  List.length d = 256%nat ->
  existsb (Byte.eqb x00) d = false ->
  exists a,
    nth_error (data_shown (trace (main w))) (List.length pre) = Some a /\
    text a = d /\ terminated a = false.
Proof.
  intros H Hin Hpre Hlen Hnul.
  destruct (shown_at w pre later d H Hin Hpre) as (buffer & Hb & Hnth);
    [lia|].
  eexists. split; [exact Hnth|].
  unfold store. rewrite skipn_all2 by lia.
  destruct (read_c_string_app d [] Hnul) as [-> ->].
  rewrite app_nil_r. split; reflexivity.
Qed.

Lemma full_chunk_is_read_past_the_array_witness :
  exists a,
    nth_error (data_shown (trace (main MoreSamples.sends_full_chunk))) 1
      = Some a /\
    text a = MoreSamples.full_chunk /\ terminated a = false.
Proof.
  apply (full_chunk_is_read_past_the_array MoreSamples.sends_full_chunk
           [Chunk (MoreSamples.bytes "ab")] [Closed] MoreSamples.full_chunk).
  - repeat split; vm_compute; congruence.
  - reflexivity.
  - repeat constructor.
  - vm_compute. reflexivity.
  - vm_compute. reflexivity.
Defined.

Lemma read_c_string_nul_inside (d mem : list byte) :
  existsb (Byte.eqb x00) d = true ->
  read_c_string (d ++ mem) = read_c_string d /\
  terminated (read_c_string d) = true.
Proof.
  induction d as [|b d IH]; intros H; [discriminate|].
  cbn [app read_c_string]. cbn [existsb] in H.
  destruct (Byte.eqb b x00) eqn:E; [split; reflexivity|].
  replace (Byte.eqb x00 b) with false in H
    by (destruct b; try reflexivity; discriminate E).
  cbn [orb] in H. destruct (IH H) as [-> ->]. split; reflexivity.
Qed.

(** A chunk that holds a NUL is shown up to its first NUL only: the bytes
    received after it are not printed, and nothing of the array's earlier
    contents is. *)
Theorem chunk_is_cut_at_its_first_nul
    (w : os) (pre later : list recv_outcome) (d : list byte) :
  connects w ->
  inbound w = (pre ++ Chunk d :: later)%list ->
  Forall (fun r => 0 < fst (recv_result BUFFER_SIZE r)) pre ->
  (List.length d <= 256)%nat ->
  existsb (Byte.eqb x00) d = true ->
  nth_error (data_shown (trace (main w))) (List.length pre) =
    Some (read_c_string d) /\
  terminated (read_c_string d) = true /\
  (List.length (text (read_c_string d)) < List.length d)%nat.
Proof.
  intros H Hin Hpre Hlen Hnul.
  assert (0 < List.length d)%nat as Hpos
    by (destruct d; [discriminate Hnul|cbn [List.length]; lia]).
  destruct (shown_at w pre later d H Hin Hpre) as (buffer & Hb & Hnth);
    [lia|].
  unfold store in Hnth.
  destruct (read_c_string_nul_inside d (skipn (List.length d) buffer) Hnul)
    as [E T].
  rewrite E in Hnth. split; [exact Hnth|]. split; [exact T|].
  pose proof (read_c_string_length d) as L. rewrite T in L. exact L.
Qed.

Lemma chunk_is_cut_at_its_first_nul_witness :
  nth_error (data_shown (trace (main MoreSamples.sends_nul_inside))) 1 =
    Some (whole (MoreSamples.bytes "ab")).
Proof.
  destruct (chunk_is_cut_at_its_first_nul MoreSamples.sends_nul_inside
              [Chunk (MoreSamples.bytes "xyzxyzxyz")] [Closed]
              MoreSamples.nul_inside) as (Hnth & _).
  - repeat split; vm_compute; congruence.
  - reflexivity.
  - repeat constructor.
  - vm_compute. lia.
  - reflexivity.
  - exact Hnth.
Defined.

End Array.

(** ** When the output is the data received *)

Section Faithful.

Lemma Forall_skipn (P : byte -> Prop) (n : nat) :
  forall l, Forall P l -> Forall P (skipn n l).
Proof.
  induction n as [|n IH]; intros l H; [exact H|].
  destruct H as [|x l Hx Hl]; [constructor|]. cbn [skipn]. auto.
Qed.

Lemma skipn_skipn_le (m n : nat) (l : list byte) :
  (m <= n)%nat -> skipn n l = skipn (n - m) (skipn m l).
Proof.
  intros H. rewrite skipn_skipn. f_equal. lia.
Qed.

(** Storing a chunk free of NUL over an array whose bytes from the chunk's
    end on are NUL gives a string that is the chunk. *)
Lemma read_store_clean (buffer d : list byte) :
  List.length buffer = 256%nat ->
  (List.length d < 256)%nat ->
  existsb (Byte.eqb x00) d = false ->
  Forall (eq x00) (skipn (List.length d) buffer) ->
  read_c_string (store buffer d) = whole d.
Proof.
  intros Hb Hd Hnul Hzero. unfold store.
  destruct (read_c_string_app d (skipn (List.length d) buffer) Hnul)
    as [Htext Hterm].
  destruct (skipn (List.length d) buffer) as [|z tail] eqn:E.
  - apply (f_equal (@List.length byte)) in E.
    rewrite length_skipn in E. cbn [List.length] in E. lia.
  - inversion Hzero as [|? ? Hz _]. subst z.
    cbn [read_c_string Byte.eqb] in Htext, Hterm.
    change (Byte.eqb x00 x00) with true in *.
    cbn [text terminated] in Htext, Hterm. rewrite app_nil_r in Htext.
    destruct (read_c_string (d ++ x00 :: tail)) as [t b].
    cbn [text terminated] in *. subst. reflexivity.
Qed.

Lemma shown_on_clean_array (chunks : list (list byte)) :
  Forall (fun d => (List.length d < 256)%nat /\
                   existsb (Byte.eqb x00) d = false) chunks ->
  forall m buffer,
    List.length buffer = 256%nat ->
    Forall (eq x00) (skipn m buffer) ->
    lengths_grow m chunks = true ->
    map read_c_string (buffers_after buffer chunks) = map whole chunks.
Proof.
  induction 1 as [|d chunks [Hd Hnul] _ IH]; intros m buffer Hb Hzero Hgrow;
    [reflexivity|].
  cbn [lengths_grow] in Hgrow. apply andb_true_iff in Hgrow as [Hm Hgrow].
  apply Nat.leb_le in Hm.
  assert (Forall (eq x00) (skipn (List.length d) buffer)) as Hzero'.
  { rewrite (skipn_skipn_le m) by assumption. apply Forall_skipn, Hzero. }
  cbn [buffers_after map]. f_equal.
  - apply read_store_clean; assumption.
  - apply (IH (List.length d)).
    + rewrite store_length; lia.
    + unfold store. rewrite skipn_app, skipn_all, Nat.sub_diag.
      exact Hzero'.
    + exact Hgrow.
Qed.

(** Where the output is right: when the array holds only NUL at entry and
    the chunks are free of NUL, shorter than 256 bytes and never shorter
    than the one before, every data message shows exactly its chunk. *)
Theorem growing_chunks_on_a_clean_array_show_exactly (w : os) :
  connects w ->
  (forall i, (i < 256)%nat -> indeterminate w i = x00) ->
  Forall (fun d => (List.length d < 256)%nat /\
                   existsb (Byte.eqb x00) d = false)
         (chunks_read (inbound w)) ->
  lengths_grow 0 (chunks_read (inbound w)) = true ->
  data_shown (trace (main w)) = map whole (chunks_read (inbound w)).
Proof.
  intros H Hclean Hchunks Hgrow.
  rewrite (main_connected_shown w H).
  apply (shown_on_clean_array _ Hchunks 0%nat);
    [apply uninitialized_length| |exact Hgrow].
  cbn [skipn]. unfold uninitialized. apply Forall_map, Forall_forall.
  intros i Hi. apply in_seq in Hi. symmetry. apply Hclean.
  change (Z.to_nat BUFFER_SIZE) with 256%nat in Hi. lia.
Qed.

Lemma growing_chunks_on_a_clean_array_show_exactly_witness :
  data_shown (trace (main MoreSamples.sends_growing)) =
    [whole (MoreSamples.bytes "a"); whole (MoreSamples.bytes "bc");
     whole (MoreSamples.bytes "def")].
Proof.
  apply (growing_chunks_on_a_clean_array_show_exactly
           MoreSamples.sends_growing).
  - repeat split; vm_compute; congruence.
  - intros i _. reflexivity.
  - vm_compute. repeat constructor; lia.
  - reflexivity.
Defined.

Lemma render_received (a : c_string) :
  render (list_byte_of_string msg_received) [a] =
  if terminated a then Some (data_line a) else None.
Proof. destruct a as [t [|]]; reflexivity. Qed.

Lemma stdout_cons (c : call) (t : list call) :
  stdout (c :: t) = glue (output_of c) (stdout t).
Proof. reflexivity. Qed.

Lemma glue_Some_nil (o : option (list byte)) : glue (Some []) o = o.
Proof. destruct o; reflexivity. Qed.

Lemma glue_assoc (o1 o2 o3 : option (list byte)) :
  glue (glue o1 o2) o3 = glue o1 (glue o2 o3).
Proof.
  destruct o1, o2, o3; cbn [glue]; try reflexivity.
  rewrite app_assoc. reflexivity.
Qed.

Lemma stdout_append (t1 t2 : list call) :
  stdout (t1 ++ t2) = glue (stdout t1) (stdout t2).
Proof.
  induction t1 as [|c t1 IH].
  - cbn [app]. symmetry. apply glue_Some_nil.
  - cbn [app]. rewrite !stdout_cons, IH, glue_assoc. reflexivity.
Qed.

Lemma loop_calls_cons (sock : Z) (b : list byte) (buffers : list (list byte)) :
  loop_calls sock (b :: buffers) =
  recv sock BUFFER_SIZE 0
  :: printf msg_received [read_c_string b] :: loop_calls sock buffers.
Proof. reflexivity. Qed.

Lemma stdout_loop_calls (sock : Z) (buffers : list (list byte)) :
  Forall (fun a => terminated a = true) (map read_c_string buffers) ->
  stdout (loop_calls sock buffers) =
  Some (flat_map data_line (map read_c_string buffers)).
Proof.
  induction buffers as [|b buffers IH]; intros H; [reflexivity|].
  cbn [map] in H. inversion H as [|? ? Hb Hrest]. subst.
  rewrite loop_calls_cons, !stdout_cons, (IH Hrest).
  change (output_of (recv sock BUFFER_SIZE 0)) with (Some (@nil byte)).
  change (output_of (printf msg_received [read_c_string b]))
    with (render (list_byte_of_string msg_received) [read_c_string b]).
  rewrite render_received, Hb. reflexivity.
Qed.

Lemma stdout_before_loop (v s namelen : Z) (name : sockaddr_in) :
  stdout [WSAStartup v; socket AF_INET SOCK_STREAM 0;
          connect s name namelen; printf msg_connected []] =
  Some (list_byte_of_string msg_connected).
Proof. reflexivity. Qed.

Lemma stdout_after_loop (sock recv_size : Z) :
  stdout (after_loop sock recv_size) =
  Some (if recv_size =? SOCKET_ERROR
        then list_byte_of_string msg_recv_failed else []).
Proof.
  unfold after_loop. destruct (recv_size =? SOCKET_ERROR); reflexivity.
Qed.

(** Standard output of a run that reaches the loop and in which every data
    message met a NUL inside the array: the success line, then for each
    data message the fixed prefix, the string read from the array and a
    newline, then the receive-error line if [recv] returned
    [SOCKET_ERROR]. *)
Theorem stdout_of_a_connected_run (w : os) :
  connects w ->
  Forall (fun a => terminated a = true) (data_shown (trace (main w))) ->
  stdout (trace (main w)) =
  Some (list_byte_of_string msg_connected
        ++ flat_map data_line (data_shown (trace (main w)))
        ++ match loop_end (inbound w) with
           | Some recv_size =>
               if recv_size =? SOCKET_ERROR
               then list_byte_of_string msg_recv_failed else []
           | None => []
           end)%list.
Proof.
  intros H. rewrite (main_connected_shown w H), (main_connected_trace w H).
  intros Hterm.
  rewrite !stdout_append, stdout_before_loop, stdout_cons.
  rewrite (stdout_loop_calls _ _ Hterm).
  change (output_of (recv (socket_ret w) BUFFER_SIZE 0))
    with (Some (@nil byte)).
  rewrite glue_Some_nil.
  destruct (loop_end (inbound w)) as [recv_size|].
  - rewrite stdout_after_loop. reflexivity.
  - cbn [stdout fold_right glue]. reflexivity.
Qed.

Lemma stdout_of_a_connected_run_witness :
  stdout (trace (main Sample.fails_after_two)) =
  Some (list_byte_of_string
          ("Connected to Gameboy emulator." ++ LF ++
           "Received from Gameboy emulator: ab" ++ LF ++
           "Received from Gameboy emulator: cd" ++ LF ++
           "Receive failed." ++ LF)%string).
Proof.
  rewrite (stdout_of_a_connected_run Sample.fails_after_two).
  - vm_compute. reflexivity.
  - repeat split; vm_compute; congruence.
  - vm_compute. repeat constructor.
Defined.

End Faithful.
